(** * tools/multi_login.py: form-login helper

    A shallow embedding of the script [tools/multi_login.py] and the
    properties of its five stages: fetch, form location, field heuristic,
    submission and result classification.

    The script talks to two libraries, [requests] and [bs4].  Their
    behaviour is the environment of the program: it is a parameter
    ([World]) of every definition that needs it, and every theorem
    quantifies over it. *)

From Stdlib Require Import ZArith Ascii.
From stdpp Require Import base option list strings gmap.

Local Open Scope string_scope.
Local Open Scope Z_scope.

(** ** Python values *)

Module Py.

(** Truth value of a [str]: the empty string is falsy. *)
Definition truthy (s : string) : bool := bool_decide (s ≠ "").

(** [a or b] where [a] is an [Optional[str]] and [b] a [str]. *)
Definition or_else (a : option string) (b : string) : string :=
  match a with
  | Some s => if truthy s then s else b
  | None => b
  end.

(** [str.lower] on one character of ASCII text. *)
Definition lower_ascii (c : ascii) : ascii :=
  let n := N_of_ascii c in
  if ((65 <=? n) && (n <=? 90))%N then ascii_of_N (n + 32) else c.

(** [s.lower()].  Strings are sequences of 8-bit characters here and the
    characters outside ASCII are left alone.  The script lower-cases a
    string only to compare it with [post] or to search it for [logout]
    and [dashboard]; no character outside ASCII lower-cases to a letter of
    these words, so both tests come out as they do in Python. *)
Fixpoint lower (s : string) : string :=
  match s with
  | EmptyString => EmptyString
  | String c s' => String (lower_ascii c) (lower s')
  end.

(** [needle in hay] for strings: [needle] occurs as a substring. *)
Fixpoint contains (needle hay : string) : bool :=
  String.prefix needle hay ||
  match hay with
  | EmptyString => false
  | String _ hay' => contains needle hay'
  end.

(** [sep.join(l)]. *)
Definition join (sep : string) (l : list string) : string :=
  String.concat sep l.

End Py.

(** ** The parsed page (bs4)

    A tag is used through [Tag.get] only, so it is its attribute
    dictionary.  A form carries, besides its attributes, the result of
    [form.find_all("input")]: its [<input>] descendants in document
    order. *)

Abbreviation Tag := (gmap string string).

Record Form := mkForm {
  form_attrs : Tag;
  form_inputs : list Tag
}.

(** [tag.get(k)]: the attribute, [None] when it is absent. *)
Definition get (t : Tag) (k : string) : option string := t !! k.

(** [tag.get(k, d)]. *)
Definition get_default (t : Tag) (k d : string) : string := default d (t !! k).

(** [form.find_all("input", {"type": ty})]. *)
Definition find_all_type (ty : string) (form : Form) : list Tag :=
  filter (λ inp, get inp "type" = Some ty) (form_inputs form).

(** ** The field mapping

    The dictionary [inputs].  Its keys are what the script uses as keys:
    a [str], or [None] (line 86 and line 91 index it by the result of
    [Tag.get], which is [None] for an input without a [name]). *)

Abbreviation Inputs := (gmap (option string) string).

(** [k in inputs]. *)
Definition has_key (inputs : Inputs) (k : string) : bool :=
  bool_decide (is_Some (inputs !! Some k)).

(** One iteration of the loop of lines 48-53. *)
Definition inputs_step (inputs : Inputs) (inp : Tag) : Inputs :=
  match get inp "name" with
  | Some name =>
      if Py.truthy name
      then <[Some name := get_default inp "value" ""]> inputs
      else inputs
  | None => inputs
  end.

(** Lines 47-53: the loop over [form.find_all("input")]. *)
Definition build_inputs (form : Form) : Inputs :=
  foldl inputs_step ∅ (form_inputs form).

(** ** Field heuristic (lines 55-91) *)

Definition csrf_name_candidates : list string :=
  ["csrf"; "csrf_token"; "_csrf"; "authenticity_token"; "token"].
Definition common_user_fields : list string :=
  ["username"; "user"; "email"; "login"].
Definition common_pass_fields : list string :=
  ["password"; "pass"; "pwd"].

(** The command line, as [argparse] returns it. *)
Record Args := mkArgs {
  login_page : string;
  username : string;
  password : string;
  action_opt : option string   (* --action, default None *)
}.

(** The variables the stage works on.  [csrf_name] is unbound ([None])
    until the scan assigns it a [str] or Python's [None]. *)
Record Vars := mkVars {
  inputs : Inputs;
  csrf_name : option (option string)
}.

(** Lines 57-62: [for k in cands: if k in inputs: ...; break] with its
    [else] branch. *)
Fixpoint first_key (cands : list string) (inputs : Inputs) : option string :=
  match cands with
  | [] => None
  | k :: ks => if has_key inputs k then Some k else first_key ks inputs
  end.

(** Lines 67-70 and 75-78: overwrite the first candidate that is a key,
    then [break]. *)
Fixpoint inject (cands : list string) (v : string) (inputs : Inputs) : Inputs :=
  match cands with
  | [] => inputs
  | k :: ks =>
      if has_key inputs k then <[Some k := v]> inputs else inject ks v inputs
  end.

(** [any(k in inputs for k in cands)]. *)
Definition any_key (cands : list string) (inputs : Inputs) : bool :=
  existsb (has_key inputs) cands.

(** Lines 81-86 and 87-91: the type-based fallback.  The key is whatever
    [Tag.get("name")] returns. *)
Definition fallback (cands : list string) (ty v : string) (form : Form)
    (inputs : Inputs) : Inputs :=
  if negb (any_key cands inputs) then
    match find_all_type ty form with
    | inp :: _ => <[get inp "name" := v]> inputs
    | [] => inputs
    end
  else inputs.

(** The key the fallback writes to, when it writes. *)
Definition fallback_target (cands : list string) (ty : string) (form : Form)
    (m : Inputs) : option (option string) :=
  if any_key cands m then None
  else (λ inp, get inp "name") <$> head (find_all_type ty form).

Definition set_inputs (f : Inputs → Inputs) (v : Vars) : Vars :=
  {| inputs := f (inputs v); csrf_name := csrf_name v |}.

Definition scan_csrf (v : Vars) : Vars :=
  {| inputs := inputs v;
     csrf_name := Some (first_key csrf_name_candidates (inputs v)) |}.

Definition inject_credentials (args : Args) (form : Form) (v : Vars) : Vars :=
  let v := set_inputs (inject common_user_fields (username args)) v in
  let v := set_inputs (inject common_pass_fields (password args)) v in
  let v := set_inputs (fallback common_user_fields "text" (username args) form) v in
  set_inputs (fallback common_pass_fields "password" (password args) form) v.

(** Lines 47-91. *)
Definition field_heuristic (args : Args) (form : Form) : Vars :=
  let v := {| inputs := build_inputs form; csrf_name := None |} in
  let v := scan_csrf v in
  inject_credentials args form v.

(** The same lines with the CSRF candidate scan (lines 55-62) removed. *)
Definition field_heuristic_without_csrf_scan (args : Args) (form : Form) : Vars :=
  let v := {| inputs := build_inputs form; csrf_name := None |} in
  inject_credentials args form v.

(** ** The process: requests sent, text printed, exit status *)

Inductive Request :=
| Get (url : string) (params : option Inputs)
| Post (url : string) (data : Inputs).

Record Response := mkResponse { text : string }.

(** What the script cannot decide: the network as seen through a
    [requests.Session], and the parser.  [send req jar] is the outcome of
    one request issued while the session holds the cookies [jar]: an
    exception (its message) or a response and the cookies the session
    holds afterwards, as [session.cookies.get_dict().items()] lists
    them.  [forms html] is [BeautifulSoup(html, "html.parser")] seen
    through [find_all("form")]; it describes the pages the parser
    accepts.  Line 39 is outside any [try]: on markup the parser rejects
    the interpreter ends the run with a traceback, and no statement below
    is about such a run past the fetch. *)
Record World := mkWorld {
  send : Request → list (string * string) → string + (Response * list (string * string));
  forms : string → list Form
}.

Record Proc := mkProc {
  sent : list Request;               (* requests issued, oldest first *)
  stdout : list string;              (* one entry per [print] call *)
  stderr : list string;
  cookies : list (string * string)   (* the session's cookie jar *)
}.

Inductive Step (A : Type) :=
| Next (a : A)
| SysExit (code : Z).
Arguments Next {A} a.
Arguments SysExit {A} code.

Definition Script (A : Type) : Type := Proc → Proc * Step A.

#[global] Instance Script_ret : MRet Script := λ A a p, (p, Next a).
#[global] Instance Script_bind : MBind Script := λ A B f m p,
  match m p with
  | (p', Next a) => f a p'
  | (p', SysExit c) => (p', SysExit c)
  end.

Definition sys_exit {A} (code : Z) : Script A := λ p, (p, SysExit code).

Definition print (s : string) : Script unit := λ p,
  ({| sent := sent p; stdout := stdout p ++ [s];
      stderr := stderr p; cookies := cookies p |}, Next ()).

Definition eprint (s : string) : Script unit := λ p,
  ({| sent := sent p; stdout := stdout p;
      stderr := stderr p ++ [s]; cookies := cookies p |}, Next ()).

Definition get_dict : Script (list (string * string)) := λ p, (p, Next (cookies p)).

(** [session.get] / [session.post] inside [try]: the exception is
    returned to the handler. *)
Definition request (w : World) (req : Request) : Script (string + Response) := λ p,
  let p' := {| sent := sent p ++ [req]; stdout := stdout p;
               stderr := stderr p; cookies := cookies p |} in
  match send w req (cookies p) with
  | inl e => (p', Next (inl e))
  | inr (r, jar) =>
      ({| sent := sent p'; stdout := stdout p';
          stderr := stderr p'; cookies := jar |}, Next (inr r))
  end.

(** ** The script *)

(** Line 45: [args.action or form.get("action") or args.login_page]. *)
Definition action (args : Args) (form : Form) : string :=
  Py.or_else (action_opt args)
    (Py.or_else (get (form_attrs form) "action") (login_page args)).

(** Line 46: [form.get("method", "post").lower()]. *)
Definition method (form : Form) : string :=
  Py.lower (get_default (form_attrs form) "method" "post").

(** Lines 95-98: the request the submitter issues. *)
Definition submission (args : Args) (form : Form) (inputs : Inputs) : Request :=
  if String.eqb (method form) "post"
  then Post (action args form) inputs
  else Get (action args form) (Some inputs).

(** Line 106. *)
Definition cookie_str (cookies : list (string * string)) : string :=
  Py.join "; " (map (λ kv, kv.1 +:+ "=" +:+ kv.2) cookies).

(** Lines 104-116. *)
Definition result_classifier (resp : Response) : Script unit :=
  cookies ← get_dict;
  match cookies with
  | _ :: _ =>
      print ("OK cookie=" +:+ cookie_str cookies);;
      sys_exit 0
  | [] =>
      if Py.contains "logout" (Py.lower (text resp))
         || Py.contains "dashboard" (Py.lower (text resp))
      then print "OK cookie=";; sys_exit 0
      else eprint "ERROR: Login likely failed";; sys_exit 5
  end.

(** Lines 45-116, once a form has been found; [heuristic] is the field
    heuristic stage. *)
Definition login_with (heuristic : Args → Form → Vars) (w : World)
    (args : Args) (form : Form) : Script unit :=
  let v := heuristic args form in
  resp ← request w (submission args form (inputs v));
  match resp with
  | inl e =>
      eprint ("ERROR: Login submission failed: " +:+ e);;
      sys_exit 4
  | inr resp => result_classifier resp
  end.

(** Lines 30-116. *)
Definition script_with (heuristic : Args → Form → Vars) (w : World)
    (args : Args) : Script unit :=
  r ← request w (Get (login_page args) None);
  match r with
  | inl e =>
      eprint ("ERROR: Failed to fetch login page: " +:+ e);;
      sys_exit 2
  | inr r =>
      match head (forms w (text r)) with
      | None =>
          eprint "ERROR: No form found on login page";;
          sys_exit 3
      | Some form => login_with heuristic w args form
      end
  end.

(** A fresh process with a fresh [requests.Session]. *)
Definition start : Proc :=
  {| sent := []; stdout := []; stderr := []; cookies := [] |}.

(** The script as it is. *)
Definition main (w : World) (args : Args) : Proc * Step unit :=
  script_with field_heuristic w args start.

(** The script with lines 55-62 removed. *)
Definition main_without_csrf_scan (w : World) (args : Args) : Proc * Step unit :=
  script_with field_heuristic_without_csrf_scan w args start.

(** What can be observed of a run: the requests, both output channels and
    the exit status. *)
Definition observable (run : Proc * Step unit) :
    list Request * list string * list string * Step unit :=
  (sent run.1, stdout run.1, stderr run.1, run.2).

(** The process right after a successful fetch that left the cookies
    [jar] in the session. *)
Definition fetched (args : Args) (jar : list (string * string)) : Proc :=
  {| sent := [Get (login_page args) None]; stdout := []; stderr := [];
     cookies := jar |}.

(** A request that carries the field mapping: the submitter's. *)
Definition carries_fields (req : Request) : bool :=
  match req with
  | Post _ _ => true
  | Get _ (Some _) => true
  | Get _ None => false
  end.

(** The body test of line 111. *)
Definition logged_in_marker (resp : Response) : bool :=
  Py.contains "logout" (Py.lower (text resp))
  || Py.contains "dashboard" (Py.lower (text resp)).

(** Line 45 read with presence in place of truth value: the override
    when given, else the attribute when the form has one, else the page
    URL.  For comparison with [action]. *)
Definition action_by_presence (args : Args) (form : Form) : string :=
  match action_opt args with
  | Some a => a
  | None =>
      match get (form_attrs form) "action" with
      | Some a => a
      | None => login_page args
      end
  end.

(** ** Sample pages and servers *)

Module Sample.

Definition tag (attrs : list (string * string)) : Tag := list_to_map attrs.

Definition args : Args :=
  {| login_page := "http://example.test/login"; username := "alice";
     password := "s3cret"; action_opt := None |}.

(** [<form><input type=hidden name=_csrf value=tok123>
    <input type=text name=username><input type=password name=password>
    <input type=submit name=go value=Login></form>] *)
Definition login_form : Form :=
  {| form_attrs := ∅;
     form_inputs :=
       [tag [("type", "hidden"); ("name", "_csrf"); ("value", "tok123")];
        tag [("type", "text"); ("name", "username")];
        tag [("type", "password"); ("name", "password")];
        tag [("type", "submit"); ("name", "go"); ("value", "Login")]] |}.

(** [<form action="" method="GET"> ... </form>] *)
Definition get_form : Form :=
  {| form_attrs := tag [("action", ""); ("method", "GET")];
     form_inputs := form_inputs login_form |}.

(** [<form><input type=text name=token value=tok123>
    <input type=password name=password></form>] *)
Definition token_form : Form :=
  {| form_attrs := ∅;
     form_inputs :=
       [tag [("type", "text"); ("name", "token"); ("value", "tok123")];
        tag [("type", "password"); ("name", "password")]] |}.

(** [<form><input type=text><input type=password name=password></form>] *)
Definition unnamed_form : Form :=
  {| form_attrs := ∅;
     form_inputs :=
       [tag [("type", "text")];
        tag [("type", "password"); ("name", "password")]] |}.

(** A server whose login page parses to [page] and which answers the
    submission with [answer]. *)
Definition server (page : list Form)
    (answer : string + (Response * list (string * string))) : World :=
  {| send := λ req jar,
       if carries_fields req then answer
       else inr ({| text := "<html>" |}, jar);
     forms := λ _, page |}.

(** A host that cannot be reached. *)
Definition unreachable : World :=
  {| send := λ _ _, inl "Connection refused"; forms := λ _, [] |}.

End Sample.

(** ** More sample pages *)

Module Pages.

(** [<form><input type=text name=login value=x><input type=text name=email>
    <input type=password name=pwd><input type=password name=pass></form>] *)
Definition email_form : Form :=
  {| form_attrs := ∅;
     form_inputs :=
       [Sample.tag [("type", "text"); ("name", "login"); ("value", "x")];
        Sample.tag [("type", "text"); ("name", "email")];
        Sample.tag [("type", "password"); ("name", "pwd")];
        Sample.tag [("type", "password"); ("name", "pass")]] |}.

(** [<form><input type=hidden name=sid value=7><input type=text name=uid>
    <input type=password name=password></form>] *)
Definition uid_form : Form :=
  {| form_attrs := ∅;
     form_inputs :=
       [Sample.tag [("type", "hidden"); ("name", "sid"); ("value", "7")];
        Sample.tag [("type", "text"); ("name", "uid")];
        Sample.tag [("type", "password"); ("name", "password")]] |}.

(** [<form><input type=text name=username>
    <input type=password name=pin></form>] *)
Definition pin_form : Form :=
  {| form_attrs := ∅;
     form_inputs :=
       [Sample.tag [("type", "text"); ("name", "username")];
        Sample.tag [("type", "password"); ("name", "pin")]] |}.

(** [<form><input type=hidden name=sid value=7>
    <input type=submit name=go value=Enter></form>] *)
Definition bare_form : Form :=
  {| form_attrs := ∅;
     form_inputs :=
       [Sample.tag [("type", "hidden"); ("name", "sid"); ("value", "7")];
        Sample.tag [("type", "submit"); ("name", "go"); ("value", "Enter")]] |}.

End Pages.

(** The word [post] written in any mix of upper and lower case: the
    attribute values that line 95 takes for a POST. *)
Definition post_in_any_case (m : string) : Prop :=
  ∃ c1 c2 c3 c4 : ascii,
    m = String c1 (String c2 (String c3 (String c4 EmptyString))) ∧
    (c1 = "p"%char ∨ c1 = "P"%char) ∧
    (c2 = "o"%char ∨ c2 = "O"%char) ∧
    (c3 = "s"%char ∨ c3 = "S"%char) ∧
    (c4 = "t"%char ∨ c4 = "T"%char).

(** [<form method="PoST"> ... </form>] *)
Definition mixed_case_post_form : Form :=
  {| form_attrs := Sample.tag [("method", "PoST")];
     form_inputs := form_inputs Sample.login_form |}.

(** * Properties *)

(** ** Strings *)

Lemma prefix_app (n h : string) :
  String.prefix n h = true ↔ ∃ b, h = n +:+ b.
Proof.
  revert h. induction n as [|c n IH]; intros h.
  - destruct h; simpl; split; eauto.
  - destruct h as [|d h]; simpl.
    + split; [done | intros [b Hb]; discriminate].
    + destruct (Ascii.ascii_dec c d) as [->|Hne].
      * rewrite IH. split; intros [b Hb]; exists b.
        -- by rewrite Hb.
        -- change (String d h = String d (n +:+ b)) in Hb. congruence.
      * split; [done | intros [b Hb]].
        change (String d h = String c (n +:+ b)) in Hb. congruence.
Qed.

(** [Py.contains] is the substring test. *)
Lemma contains_substring (n h : string) :
  Py.contains n h = true ↔ ∃ a b, h = a +:+ n +:+ b.
Proof.
  induction h as [|d h IH]; cbn [Py.contains].
  - rewrite orb_false_r, prefix_app. split.
    + intros [b Hb]. by exists "", b.
    + intros [a [b Hb]]. destruct a; [by exists b | discriminate].
  - rewrite orb_true_iff, prefix_app, IH. split.
    + intros [[b Hb] | [a [b Hb]]].
      * by exists "", b.
      * exists (String d a), b. by rewrite Hb.
    + intros [a [b Hb]]. destruct a as [|c a].
      * left. by exists b.
      * right. exists a, b.
        change (String d h = String c (a +:+ n +:+ b)) in Hb. congruence.
Qed.

Example lower_mixed_case : Py.lower "Your DashBoard [1]" = "your dashboard [1]".
Proof. reflexivity. Qed.

Example contains_dashboard :
  Py.contains "dashboard" (Py.lower "<h1>Dashboard</h1>") = true.
Proof. reflexivity. Qed.

Example contains_needs_adjacent : Py.contains "logout" "log out" = false.
Proof. reflexivity. Qed.

Example cookie_str_two :
  cookie_str [("sessionid", "abc123"); ("lang", "en")] = "sessionid=abc123; lang=en".
Proof. reflexivity. Qed.

(** ** The field mapping (lines 47-53) *)

Lemma inputs_step_hit (m : Inputs) (inp : Tag) (n : string) :
  get inp "name" = Some n → n ≠ "" →
  inputs_step m inp = <[Some n := get_default inp "value" ""]> m.
Proof.
  intros Hn Hne. unfold inputs_step. rewrite Hn.
  unfold Py.truthy. by rewrite bool_decide_eq_true_2.
Qed.

Lemma inputs_step_skip (m : Inputs) (inp : Tag) :
  get inp "name" = None ∨ get inp "name" = Some "" →
  inputs_step m inp = m.
Proof. intros [H|H]; unfold inputs_step; by rewrite H. Qed.

Lemma inputs_step_other (m : Inputs) (inp : Tag) (key : option string) :
  get inp "name" ≠ key → inputs_step m inp !! key = m !! key.
Proof.
  intros Hne. unfold inputs_step.
  destruct (get inp "name") as [n|]; [|done].
  destruct (Py.truthy n); [|done].
  by rewrite lookup_insert_ne.
Qed.

Lemma inputs_step_unnameable (m : Inputs) (inp : Tag) (key : option string) :
  key = None ∨ key = Some "" → inputs_step m inp !! key = m !! key.
Proof.
  intros Hk. unfold inputs_step.
  destruct (get inp "name") as [n|]; [|done].
  unfold Py.truthy. case_bool_decide; [|done].
  rewrite lookup_insert_ne; [done|]. destruct Hk; congruence.
Qed.

Lemma foldl_inputs_step_other (l : list Tag) (m : Inputs) (key : option string) :
  (∀ inp, inp ∈ l → get inp "name" ≠ key) →
  foldl inputs_step m l !! key = m !! key.
Proof.
  revert m. induction l as [|inp l IH]; intros m Hl; simpl; [done|].
  rewrite IH.
  - apply inputs_step_other, Hl. by left.
  - intros inp' Hin. apply Hl. by right.
Qed.

Lemma foldl_inputs_step_unnameable (l : list Tag) (m : Inputs) (key : option string) :
  key = None ∨ key = Some "" →
  foldl inputs_step m l !! key = m !! key.
Proof.
  intros Hk. revert m. induction l as [|inp l IH]; intros m; simpl; [done|].
  rewrite IH. by apply inputs_step_unnameable.
Qed.

Lemma build_inputs_unnameable (form : Form) (key : option string) :
  key = None ∨ key = Some "" → build_inputs form !! key = None.
Proof.
  intros Hk. unfold build_inputs.
  by rewrite foldl_inputs_step_unnameable.
Qed.

Lemma inputs_step_keeps_keys (m : Inputs) (inp : Tag) (key : option string) :
  is_Some (m !! key) → is_Some (inputs_step m inp !! key).
Proof.
  intros Hk. unfold inputs_step.
  destruct (get inp "name") as [n|]; [|done].
  destruct (Py.truthy n); [|done].
  apply lookup_insert_is_Some'. by right.
Qed.

Lemma foldl_inputs_step_keeps_keys (l : list Tag) (m : Inputs) (key : option string) :
  is_Some (m !! key) → is_Some (foldl inputs_step m l !! key).
Proof.
  revert m. induction l as [|inp l IH]; intros m Hk; simpl; [done|].
  by apply IH, inputs_step_keeps_keys.
Qed.

(** Every input with a non-empty name is a key of the mapping. *)
Lemma build_inputs_named (form : Form) (inp : Tag) (n : string) :
  inp ∈ form_inputs form → get inp "name" = Some n → n ≠ "" →
  is_Some (build_inputs form !! Some n).
Proof.
  unfold build_inputs. generalize (∅ : Inputs).
  induction (form_inputs form) as [|i l IH]; intros m Hin Hn Hne.
  - by apply elem_of_nil in Hin.
  - simpl. apply elem_of_cons in Hin as [<-|Hin].
    + apply foldl_inputs_step_keeps_keys.
      rewrite (inputs_step_hit _ _ n), lookup_insert_eq by done. eauto.
    + by apply IH.
Qed.

(** A key of the mapping is the non-empty name of some input. *)
Lemma build_inputs_key (form : Form) (key : option string) :
  is_Some (build_inputs form !! key) →
  ∃ inp n, inp ∈ form_inputs form ∧ get inp "name" = Some n ∧ n ≠ "" ∧ key = Some n.
Proof.
  intros Hk.
  destruct (decide (Exists (λ i, get i "name" = key) (form_inputs form))) as [Hex|Hno].
  - apply Exists_exists in Hex as [inp [Hin Hn]].
    destruct key as [n|].
    + destruct (decide (n = "")) as [->|Hne].
      * rewrite build_inputs_unnameable in Hk by auto. by destruct Hk.
      * by exists inp, n.
    + rewrite build_inputs_unnameable in Hk by auto. by destruct Hk.
  - unfold build_inputs in Hk. rewrite foldl_inputs_step_other in Hk.
    + rewrite lookup_empty in Hk. by destruct Hk.
    + intros inp Hin Hn. apply Hno, Exists_exists. eauto.
Qed.

(** C8.  The field mapping is built from the form's inputs in document
    order.  For a form whose inputs are [l1], then [inp], then [l2]:
    the keys [None] and [""] never appear; if [inp] has a non-empty name
    that no later input carries, the mapping sends that name to [inp]'s
    [value] attribute, or to the empty string when [inp] has none,
    whatever the earlier inputs of the same name declared; an input
    without a name, or with an empty one, contributes nothing; and every
    key is the non-empty name of some input. *)
Theorem build_inputs_last_named_wins (attrs : Tag) (l1 l2 : list Tag) (inp : Tag) :
  let m := build_inputs (mkForm attrs (l1 ++ inp :: l2)) in
  m !! None = None ∧ m !! Some "" = None ∧
  (∀ n, get inp "name" = Some n → n ≠ "" →
        (∀ inp', inp' ∈ l2 → get inp' "name" ≠ Some n) →
        m !! Some n = Some (match get inp "value" with Some v => v | None => "" end)) ∧
  (get inp "name" = None ∨ get inp "name" = Some "" →
        m = build_inputs (mkForm attrs (l1 ++ l2))) ∧
  (∀ key, is_Some (m !! key) →
        ∃ i n, i ∈ (l1 ++ inp :: l2)%list ∧ get i "name" = Some n ∧ n ≠ "" ∧ key = Some n).
Proof.
  intros m. split_and!.
  - apply build_inputs_unnameable. auto.
  - apply build_inputs_unnameable. auto.
  - intros n Hn Hne Hlater. subst m. unfold build_inputs. simpl.
    rewrite foldl_app. simpl.
    rewrite foldl_inputs_step_other by done.
    by rewrite (inputs_step_hit _ _ n), lookup_insert_eq.
  - intros Hskip. subst m. unfold build_inputs. simpl.
    rewrite !foldl_app. simpl. by rewrite inputs_step_skip.
  - intros key Hk. by apply build_inputs_key in Hk.
Qed.

Lemma build_inputs_last_named_wins_witness :
  let early : Tag := {[ "name" := "user"; "value" := "guest" ]} in
  let unnamed : Tag := {[ "type" := "text"; "value" := "x" ]} in
  let late : Tag := {[ "name" := "user" ]} in
  build_inputs (mkForm ∅ ([early; unnamed] ++ late :: [unnamed])) !! Some "user"
  = Some "".
Proof.
  intros early unnamed late.
  apply (build_inputs_last_named_wins ∅ [early; unnamed] [unnamed] late).
  - reflexivity.
  - discriminate.
  - intros inp' Hin. apply list_elem_of_singleton in Hin as ->. discriminate.
Defined.

(** ** The candidate loops and the fallback (lines 55-91) *)

Lemma has_key_true (m : Inputs) (k : string) :
  has_key m k = true ↔ is_Some (m !! Some k).
Proof. unfold has_key. apply bool_decide_eq_true. Qed.

Lemma has_key_insert_present (m : Inputs) (key : option string) (v k : string) :
  is_Some (m !! key) → has_key (<[key := v]> m) k = has_key m k.
Proof.
  intros Hkey. unfold has_key. apply bool_decide_ext.
  rewrite lookup_insert_is_Some'. split; [by intros [<-|?] | auto].
Qed.

Lemma has_key_insert_unnameable (m : Inputs) (key : option string) (v k : string) :
  key = None ∨ key = Some "" → k ≠ "" →
  has_key (<[key := v]> m) k = has_key m k.
Proof.
  intros Hkey Hk. unfold has_key. apply bool_decide_ext.
  rewrite lookup_insert_ne; [done|]. destruct Hkey; congruence.
Qed.

(** The candidate loop overwrites a key that is already there: the keys
    of the mapping stay the same. *)
Lemma inject_keys (cands : list string) (v : string) (m : Inputs) (key : option string) :
  is_Some (inject cands v m !! key) ↔ is_Some (m !! key).
Proof.
  induction cands as [|c cands IH]; simpl; [done|].
  destruct (has_key m c) eqn:Hc; [|done].
  apply has_key_true in Hc.
  rewrite lookup_insert_is_Some'. split; [by intros [<-|?] | auto].
Qed.

Lemma has_key_inject (cands : list string) (v : string) (m : Inputs) (k : string) :
  has_key (inject cands v m) k = has_key m k.
Proof. unfold has_key. apply bool_decide_ext, inject_keys. Qed.

Lemma any_key_ext (cands : list string) (m m' : Inputs) :
  (∀ k, k ∈ cands → has_key m k = has_key m' k) →
  any_key cands m = any_key cands m'.
Proof.
  unfold any_key. induction cands as [|c cands IH]; intros H; simpl; [done|].
  rewrite (H c) by (by left). rewrite IH; [done|].
  intros k Hk. apply H. by right.
Qed.

Lemma any_key_inject (cands cands' : list string) (v : string) (m : Inputs) :
  any_key cands' (inject cands v m) = any_key cands' m.
Proof. apply any_key_ext. intros k _. apply has_key_inject. Qed.

(** The candidate loop touches candidate names only. *)
Lemma inject_other (cands : list string) (v : string) (m : Inputs) (key : option string) :
  (∀ c, c ∈ cands → key ≠ Some c) →
  inject cands v m !! key = m !! key.
Proof.
  induction cands as [|c cands IH]; intros Hkey; simpl; [done|].
  destruct (has_key m c).
  - rewrite lookup_insert_ne; [done|]. intros Heq. by apply (Hkey c); [left|].
  - apply IH. intros c' Hc'. apply Hkey. by right.
Qed.

Lemma inject_first (c : string) (cands : list string) (v : string) (m : Inputs) :
  has_key m c = true → inject (c :: cands) v m = <[Some c := v]> m.
Proof. intros Hc. simpl. by rewrite Hc. Qed.

Lemma any_key_member (cands : list string) (m : Inputs) (k : string) :
  k ∈ cands → has_key m k = true → any_key cands m = true.
Proof.
  intros Hin Hk. unfold any_key. apply existsb_exists.
  exists k. split; [by apply list_elem_of_In | done].
Qed.

(** The fallback is skipped as soon as one candidate name is a key. *)
Lemma fallback_skipped (cands : list string) (ty v : string) (form : Form) (m : Inputs) :
  any_key cands m = true → fallback cands ty v form m = m.
Proof. intros H. unfold fallback. by rewrite H. Qed.

Lemma fallback_other (cands : list string) (ty v : string) (form : Form)
    (m : Inputs) (key : option string) :
  fallback_target cands ty form m ≠ Some key →
  fallback cands ty v form m !! key = m !! key.
Proof.
  unfold fallback_target, fallback.
  destruct (any_key cands m); simpl; [done|].
  destruct (find_all_type ty form) as [|inp l]; simpl; [done|].
  intros Hne. rewrite lookup_insert_ne; [done|]. congruence.
Qed.

Lemma fallback_hit (cands : list string) (ty v : string) (form : Form)
    (m : Inputs) (key : option string) :
  fallback_target cands ty form m = Some key →
  fallback cands ty v form m = <[key := v]> m.
Proof.
  unfold fallback_target, fallback.
  destruct (any_key cands m); simpl; [done|].
  destruct (find_all_type ty form) as [|inp l]; simpl; [done|].
  by intros [= ->].
Qed.

Lemma find_all_type_member (ty : string) (form : Form) (inp : Tag) (l : list Tag) :
  find_all_type ty form = inp :: l →
  inp ∈ form_inputs form ∧ get inp "type" = Some ty.
Proof.
  intros Hf. assert (inp ∈ find_all_type ty form) as Hin by (rewrite Hf; by left).
  unfold find_all_type in Hin. by apply list_elem_of_filter in Hin as [? ?].
Qed.

(** ** Runs of the script *)

Section Runs.

Variable heuristic : Args → Form → Vars.
Variable w : World.
Variable args : Args.

Lemma script_fetch_error (e : string) :
  send w (Get (login_page args) None) [] = inl e →
  script_with heuristic w args start =
    ({| sent := [Get (login_page args) None]; stdout := [];
        stderr := ["ERROR: Failed to fetch login page: " +:+ e];
        cookies := [] |}, SysExit 2).
Proof.
  intros Hsend. unfold script_with, mbind, Script_bind, request. simpl.
  by rewrite Hsend.
Qed.

Lemma script_no_form (r : Response) (jar : list (string * string)) :
  send w (Get (login_page args) None) [] = inr (r, jar) →
  forms w (text r) = [] →
  script_with heuristic w args start =
    ({| sent := [Get (login_page args) None]; stdout := [];
        stderr := ["ERROR: No form found on login page"];
        cookies := jar |}, SysExit 3).
Proof.
  intros Hsend Hforms. unfold script_with, mbind, Script_bind, request. simpl.
  by rewrite Hsend, Hforms.
Qed.

Lemma script_form (r : Response) (jar : list (string * string))
    (form : Form) (rest : list Form) :
  send w (Get (login_page args) None) [] = inr (r, jar) →
  forms w (text r) = form :: rest →
  script_with heuristic w args start =
    login_with heuristic w args form (fetched args jar).
Proof.
  intros Hsend Hforms. unfold script_with, mbind, Script_bind, request. simpl.
  by rewrite Hsend, Hforms.
Qed.

Lemma result_classifier_run (resp : Response) (p : Proc) :
  result_classifier resp p =
    match cookies p with
    | _ :: _ =>
        ({| sent := sent p;
            stdout := stdout p ++ ["OK cookie=" +:+ cookie_str (cookies p)];
            stderr := stderr p; cookies := cookies p |}, SysExit 0)
    | [] =>
        if logged_in_marker resp
        then ({| sent := sent p; stdout := stdout p ++ ["OK cookie="];
                 stderr := stderr p; cookies := cookies p |}, SysExit 0)
        else ({| sent := sent p; stdout := stdout p;
                 stderr := stderr p ++ ["ERROR: Login likely failed"];
                 cookies := cookies p |}, SysExit 5)
    end.
Proof.
  unfold result_classifier, logged_in_marker, mbind, Script_bind, get_dict.
  destruct p as [reqs out err [|c jar]]; simpl; [|done].
  by destruct (_ || _).
Qed.

Lemma login_with_run (form : Form) (p : Proc) :
  let req := submission args form (inputs (heuristic args form)) in
  login_with heuristic w args form p =
    match send w req (cookies p) with
    | inl e =>
        ({| sent := sent p ++ [req]; stdout := stdout p;
            stderr := stderr p ++ ["ERROR: Login submission failed: " +:+ e];
            cookies := cookies p |}, SysExit 4)
    | inr (resp, jar) =>
        result_classifier resp
          {| sent := sent p ++ [req]; stdout := stdout p;
             stderr := stderr p; cookies := jar |}
    end.
Proof.
  intros req. unfold login_with, mbind, Script_bind, request. fold req.
  by destruct (send w req (cookies p)) as [e|[resp jar]].
Qed.

(** Whatever the server answers, exactly one request follows the fetch. *)
Lemma login_with_sent (form : Form) (p : Proc) :
  sent (login_with heuristic w args form p).1 =
    (sent p ++ [submission args form (inputs (heuristic args form))])%list.
Proof.
  rewrite login_with_run.
  destruct (send w _ (cookies p)) as [e|[resp jar]]; [done|].
  rewrite result_classifier_run. simpl.
  destruct jar; [|done]. by destruct (logged_in_marker resp).
Qed.

End Runs.

(** ** Credential injection *)

(** The mapping the stage hands to the submitter. *)
Lemma field_heuristic_inputs (args : Args) (form : Form) :
  inputs (field_heuristic args form) =
    fallback common_pass_fields "password" (password args) form
      (fallback common_user_fields "text" (username args) form
         (inject common_pass_fields (password args)
            (inject common_user_fields (username args) (build_inputs form)))).
Proof. reflexivity. Qed.

(** With both [username] and [password] among the keys, the two
    candidate loops stop at their first candidate and neither fallback
    runs. *)
Lemma field_heuristic_named (args : Args) (form : Form) :
  has_key (build_inputs form) "username" = true →
  has_key (build_inputs form) "password" = true →
  inputs (field_heuristic args form) =
    <[Some "password" := password args]>
      (<[Some "username" := username args]> (build_inputs form)).
Proof.
  intros Hu Hp.
  assert (is_Some (build_inputs form !! Some "username")) as Hu'
    by by apply has_key_true.
  rewrite field_heuristic_inputs.
  unfold common_user_fields at 2. rewrite inject_first by done.
  unfold common_pass_fields at 2.
  rewrite inject_first by by rewrite has_key_insert_present.
  rewrite fallback_skipped.
  - rewrite fallback_skipped; [done|].
    apply (any_key_member _ _ "username"); [set_solver|].
    apply has_key_true. rewrite lookup_insert_ne by done.
    by rewrite lookup_insert_eq.
  - apply (any_key_member _ _ "password"); [set_solver|].
    rewrite fallback_skipped.
    + apply has_key_true. by rewrite lookup_insert_eq.
    + apply (any_key_member _ _ "username"); [set_solver|].
      apply has_key_true. rewrite lookup_insert_ne by done.
      by rewrite lookup_insert_eq.
Qed.

(** C1.  When the fetch succeeds and the first form of the page has an
    input named [username] and an input named [password], both with an
    empty default value, the run issues exactly one request after the
    fetch, and that request, a POST with a body or a GET with query
    parameters, carries the mapping the field heuristic produced.  That
    mapping sends [username] to the username argument and [password] to
    the password argument, and gives every other key the value the
    mapping built from the form gives it. *)
Theorem submitted_payload_has_credentials (w : World) (args : Args)
    (r : Response) (jar : list (string * string)) (form : Form)
    (rest : list Form) (u p : Tag) :
  send w (Get (login_page args) None) [] = inr (r, jar) →
  forms w (text r) = form :: rest →
  u ∈ form_inputs form → get u "name" = Some "username" →
  get_default u "value" "" = "" →
  p ∈ form_inputs form → get p "name" = Some "password" →
  get_default p "value" "" = "" →
  ∃ payload : Inputs,
    payload = inputs (field_heuristic args form) ∧
    (sent (main w args).1 =
       [Get (login_page args) None; Post (action args form) payload] ∨
     sent (main w args).1 =
       [Get (login_page args) None; Get (action args form) (Some payload)]) ∧
    payload !! Some "username" = Some (username args) ∧
    payload !! Some "password" = Some (password args) ∧
    ∀ key, key ≠ Some "username" → key ≠ Some "password" →
           payload !! key = build_inputs form !! key.
Proof.
  intros Hsend Hforms Hu Hun _ Hp Hpn _.
  exists (inputs (field_heuristic args form)). split; [done|]. split.
  - unfold main. rewrite (script_form _ _ _ r jar form rest) by done.
    rewrite login_with_sent. unfold submission, fetched. simpl.
    destruct (String.eqb (method form) "post"); auto.
  - rewrite field_heuristic_named.
    + split_and!.
      * rewrite lookup_insert_ne by done. by rewrite lookup_insert_eq.
      * by rewrite lookup_insert_eq.
      * intros key Hk1 Hk2. by rewrite !lookup_insert_ne.
    + apply has_key_true. by apply (build_inputs_named form u).
    + apply has_key_true. by apply (build_inputs_named form p).
Qed.

Lemma submitted_payload_has_credentials_witness :
  ∃ payload : Inputs,
    payload = inputs (field_heuristic Sample.args Sample.login_form) ∧
    (sent (main (Sample.server [Sample.login_form] (inl "reset")) Sample.args).1 =
       [Get "http://example.test/login" None;
        Post (action Sample.args Sample.login_form) payload] ∨
     sent (main (Sample.server [Sample.login_form] (inl "reset")) Sample.args).1 =
       [Get "http://example.test/login" None;
        Get (action Sample.args Sample.login_form) (Some payload)]) ∧
    payload !! Some "username" = Some "alice" ∧
    payload !! Some "password" = Some "s3cret" ∧
    ∀ key, key ≠ Some "username" → key ≠ Some "password" →
           payload !! key = build_inputs Sample.login_form !! key.
Proof.
  apply (submitted_payload_has_credentials
           (Sample.server [Sample.login_form] (inl "reset")) Sample.args
           {| text := "<html>" |} [] Sample.login_form []
           (Sample.tag [("type", "text"); ("name", "username")])
           (Sample.tag [("type", "password"); ("name", "password")]));
    try reflexivity.
  - right. left.
  - right. right. left.
Defined.

(** The request of that run, written out. *)
Example login_form_run :
  sent (main (Sample.server [Sample.login_form] (inl "reset")) Sample.args).1 =
    [Get "http://example.test/login" None;
     Post "http://example.test/login"
       (<[Some "password" := "s3cret"]>
          (<[Some "username" := "alice"]>
             (<[Some "go" := "Login"]>
                (<[Some "password" := ""]>
                   (<[Some "username" := ""]>
                      (<[Some "_csrf" := "tok123"]> ∅))))))].
Proof. reflexivity. Qed.

(** ** Failures before the submission *)

(** C5.  When the fetch of the login page raises, the run prints one
    error line to standard error, nothing to standard output, exits with
    status 2, and the fetch is the only request it ever issued: no
    request carrying the field mapping was sent. *)
Theorem fetch_error_exits_2 (w : World) (args : Args) (e : string) :
  send w (Get (login_page args) None) [] = inl e →
  (main w args).2 = SysExit 2 ∧
  stderr (main w args).1 = ["ERROR: Failed to fetch login page: " +:+ e] ∧
  stdout (main w args).1 = [] ∧
  sent (main w args).1 = [Get (login_page args) None] ∧
  Forall (λ req, carries_fields req = false) (sent (main w args).1).
Proof.
  intros Hsend. unfold main. rewrite (script_fetch_error _ _ _ e) by done.
  simpl. split_and!; try done. by repeat constructor.
Qed.

Lemma fetch_error_exits_2_witness :
  (main Sample.unreachable Sample.args).2 = SysExit 2 ∧
  stderr (main Sample.unreachable Sample.args).1 =
    ["ERROR: Failed to fetch login page: Connection refused"] ∧
  stdout (main Sample.unreachable Sample.args).1 = [] ∧
  sent (main Sample.unreachable Sample.args).1 =
    [Get "http://example.test/login" None] ∧
  Forall (λ req, carries_fields req = false)
         (sent (main Sample.unreachable Sample.args).1).
Proof.
  apply (fetch_error_exits_2 Sample.unreachable Sample.args "Connection refused").
  reflexivity.
Defined.

(** C6.  When the fetched page has no form, the run exits with status 3,
    prints the one line [ERROR: No form found on login page] to standard
    error and prints nothing to standard output, so no line there begins
    with [OK]; no submission is sent either. *)
Theorem no_form_exits_3 (w : World) (args : Args) (r : Response)
    (jar : list (string * string)) :
  send w (Get (login_page args) None) [] = inr (r, jar) →
  forms w (text r) = [] →
  (main w args).2 = SysExit 3 ∧
  stderr (main w args).1 = ["ERROR: No form found on login page"] ∧
  Forall (λ line, Py.contains (String "010" "") line = false)
         (stderr (main w args).1) ∧
  stdout (main w args).1 = [] ∧
  Forall (λ line, String.prefix "OK" line = false) (stdout (main w args).1) ∧
  sent (main w args).1 = [Get (login_page args) None].
Proof.
  intros Hsend Hforms. unfold main.
  rewrite (script_no_form _ _ _ r jar) by done.
  simpl. split_and!; try done. by repeat constructor.
Qed.

Lemma no_form_exits_3_witness :
  (main (Sample.server [] (inl "reset")) Sample.args).2 = SysExit 3 ∧
  stdout (main (Sample.server [] (inl "reset")) Sample.args).1 = [].
Proof.
  pose proof (no_form_exits_3 (Sample.server [] (inl "reset")) Sample.args
                {| text := "<html>" |} [] eq_refl eq_refl) as H.
  split; apply H.
Defined.

(** ** The submission *)

Lemma lower_post_default (form : Form) :
  get (form_attrs form) "method" = None → method form = "post".
Proof. intros H. unfold method, get_default. unfold get in H. by rewrite H. Qed.

Ltac ascii_cases c :=
  destruct c as [[] [] [] [] [] [] [] []]; vm_compute;
  (split; [intros H; first [discriminate H | auto]
          | intros [H|H]; first [discriminate H | reflexivity]]).

Lemma lower_ascii_p (c : ascii) :
  Py.lower_ascii c = "p"%char ↔ c = "p"%char ∨ c = "P"%char.
Proof. ascii_cases c. Qed.

Lemma lower_ascii_o (c : ascii) :
  Py.lower_ascii c = "o"%char ↔ c = "o"%char ∨ c = "O"%char.
Proof. ascii_cases c. Qed.

Lemma lower_ascii_s (c : ascii) :
  Py.lower_ascii c = "s"%char ↔ c = "s"%char ∨ c = "S"%char.
Proof. ascii_cases c. Qed.

Lemma lower_ascii_t (c : ascii) :
  Py.lower_ascii c = "t"%char ↔ c = "t"%char ∨ c = "T"%char.
Proof. ascii_cases c. Qed.

(** Lower-casing gives [post] for the sixteen spellings of the word and
    for nothing else. *)
Lemma lower_is_post (m : string) :
  Py.lower m = "post" ↔ post_in_any_case m.
Proof.
  unfold post_in_any_case. split.
  - destruct m as [|c1 [|c2 [|c3 [|c4 [|c5 m]]]]]; cbn [Py.lower];
      intros H; try discriminate H.
    injection H as H1 H2 H3 H4.
    exists c1, c2, c3, c4. split_and!; [done|..].
    + by apply lower_ascii_p.
    + by apply lower_ascii_o.
    + by apply lower_ascii_s.
    + by apply lower_ascii_t.
  - intros (c1 & c2 & c3 & c4 & -> & H1 & H2 & H3 & H4). cbn [Py.lower].
    apply lower_ascii_p in H1. apply lower_ascii_o in H2.
    apply lower_ascii_s in H3. apply lower_ascii_t in H4.
    by rewrite H1, H2, H3, H4.
Qed.

(** C7.  The method is the form's [method] attribute with its letters
    lower-cased, [post] when the form has no such attribute: it is [post]
    exactly when the attribute is absent or spells [post] in any mix of
    upper and lower case, and [method="GET"] gives [get].  After a
    successful fetch of a page with a form, the second request of the run
    is then a POST to the action URL whose body is the field mapping; for
    every other attribute value it is a GET to the action URL whose query
    parameters are the field mapping, as for a form declaring
    [method="GET"]. *)
Theorem submission_follows_method (w : World) (args : Args) (r : Response)
    (jar : list (string * string)) (form : Form) (rest : list Form) :
  send w (Get (login_page args) None) [] = inr (r, jar) →
  forms w (text r) = form :: rest →
  let payload := inputs (field_heuristic args form) in
  let by_post := [Get (login_page args) None; Post (action args form) payload] in
  let by_get :=
    [Get (login_page args) None; Get (action args form) (Some payload)] in
  (get (form_attrs form) "method" = None →
     method form = "post" ∧ sent (main w args).1 = by_post) ∧
  (∀ m, get (form_attrs form) "method" = Some m → post_in_any_case m →
     method form = "post" ∧ sent (main w args).1 = by_post) ∧
  (∀ m, get (form_attrs form) "method" = Some m → ¬ post_in_any_case m →
     method form ≠ "post" ∧ sent (main w args).1 = by_get) ∧
  (get (form_attrs form) "method" = Some "GET" →
     method form = "get" ∧ sent (main w args).1 = by_get) ∧
  (get (form_attrs form) "method" = Some "POST" →
     method form = "post" ∧ sent (main w args).1 = by_post).
Proof.
  intros Hsend Hforms payload by_post by_get.
  assert (sent (main w args).1 =
          [Get (login_page args) None; submission args form payload]) as Hsent.
  { unfold main. rewrite (script_form _ _ _ r jar form rest) by done.
    by rewrite login_with_sent. }
  assert (method form = "post" → sent (main w args).1 = by_post) as Hpost.
  { intros Hm. rewrite Hsent. unfold submission. by rewrite Hm. }
  assert (method form ≠ "post" → sent (main w args).1 = by_get) as Hget.
  { intros Hm. rewrite Hsent. unfold submission.
    apply String.eqb_neq in Hm. by rewrite Hm. }
  assert (∀ m, get (form_attrs form) "method" = Some m →
               method form = Py.lower m) as Hattr.
  { intros m Hm. unfold method, get_default. unfold get in Hm. by rewrite Hm. }
  split_and!.
  - intros Hnone. apply lower_post_default in Hnone. auto.
  - intros m Hm Hspell. apply lower_is_post in Hspell.
    rewrite <- (Hattr m Hm) in Hspell. auto.
  - intros m Hm Hspell.
    assert (method form ≠ "post") as Hne.
    { rewrite (Hattr m Hm). intros Hl. by apply Hspell, lower_is_post. }
    auto.
  - intros Hm. assert (method form = "get") as Hg by by rewrite (Hattr _ Hm).
    split; [done|]. apply Hget. by rewrite Hg.
  - intros Hm. assert (method form = "post") as Hg by by rewrite (Hattr _ Hm).
    auto.
Qed.

Lemma submission_follows_method_witness :
  sent (main (Sample.server [mixed_case_post_form] (inl "reset")) Sample.args).1 =
    [Get "http://example.test/login" None;
     Post "http://example.test/login"
       (inputs (field_heuristic Sample.args mixed_case_post_form))] ∧
  sent (main (Sample.server [Sample.get_form] (inl "reset")) Sample.args).1 =
    [Get "http://example.test/login" None;
     Get "http://example.test/login"
       (Some (inputs (field_heuristic Sample.args Sample.get_form)))].
Proof.
  split.
  - destruct (submission_follows_method
                (Sample.server [mixed_case_post_form] (inl "reset")) Sample.args
                {| text := "<html>" |} [] mixed_case_post_form []
                eq_refl eq_refl) as (_ & H & _).
    apply (H "PoST"); [reflexivity|].
    exists "P"%char, "o"%char, "S"%char, "T"%char. split_and!; auto.
  - destruct (submission_follows_method
                (Sample.server [Sample.get_form] (inl "reset")) Sample.args
                {| text := "<html>" |} [] Sample.get_form []
                eq_refl eq_refl) as (_ & _ & _ & H & _).
    apply H. reflexivity.
Defined.

(** ** The result classifier (lines 103-116) *)



(** ** The target URL (line 45) *)

(** C9, as stated, fails: a form that declares [action=""] has an
    [action] attribute, yet the script submits to the login page URL. *)
Lemma action_by_presence_fails :
  action_opt Sample.args = None ∧
  get (form_attrs Sample.get_form) "action" = Some "" ∧
  action Sample.args Sample.get_form = "http://example.test/login" ∧
  ¬ ∀ args form, action args form = action_by_presence args form.
Proof.
  split_and!; try reflexivity.
  intros H. specialize (H Sample.args Sample.get_form). discriminate H.
Qed.

(** C9, amended.  The target is the [--action] override when it is given
    and not empty; otherwise the form's [action] attribute when the form
    has one and it is not empty; otherwise the login page URL. *)
Theorem action_precedence (args : Args) (form : Form) :
  (∀ a, action_opt args = Some a → a ≠ "" → action args form = a) ∧
  (action_opt args = None ∨ action_opt args = Some "" →
   ∀ b, get (form_attrs form) "action" = Some b → b ≠ "" →
        action args form = b) ∧
  (action_opt args = None ∨ action_opt args = Some "" →
   get (form_attrs form) "action" = None ∨
   get (form_attrs form) "action" = Some "" →
   action args form = login_page args).
Proof.
  unfold action, Py.or_else, Py.truthy. split_and!.
  - intros a -> Ha. by rewrite bool_decide_eq_true_2.
  - intros Hopt b -> Hb.
    destruct Hopt as [-> | ->]; simpl; by rewrite bool_decide_eq_true_2.
  - intros [-> | ->] [-> | ->]; reflexivity.
Qed.

Lemma action_precedence_witness :
  action {| login_page := "http://example.test/login"; username := "alice";
            password := "s3cret";
            action_opt := Some "http://example.test/session" |}
         Sample.get_form = "http://example.test/session" ∧
  action Sample.args Sample.get_form = "http://example.test/login".
Proof.
  split.
  - destruct (action_precedence
                {| login_page := "http://example.test/login";
                   username := "alice"; password := "s3cret";
                   action_opt := Some "http://example.test/session" |}
                Sample.get_form) as (H & _).
    apply H; [reflexivity | discriminate].
  - destruct (action_precedence Sample.args Sample.get_form) as (_ & _ & H).
    apply H; [left | right]; reflexivity.
Defined.

(** ** The CSRF scan (lines 55-62) *)

Lemma first_key_member (cands : list string) (m : Inputs) (k : string) :
  first_key cands m = Some k → k ∈ cands ∧ has_key m k = true.
Proof.
  induction cands as [|c cands IH]; simpl; [done|].
  destruct (has_key m c) eqn:Hc.
  - intros [= <-]. split; [by left | done].
  - intros Hk. destruct (IH Hk) as [Hin Hhas]. split; [by right | done].
Qed.

(** The first candidate that is a key: no earlier candidate is one. *)
Lemma first_key_first (cands : list string) (m : Inputs) (k : string) :
  first_key cands m = Some k →
  ∃ before after, cands = (before ++ k :: after)%list ∧
                  Forall (λ c, has_key m c = false) before.
Proof.
  induction cands as [|c cands IH]; simpl; [done|].
  destruct (has_key m c) eqn:Hc.
  - intros [= <-]. by exists [], cands.
  - intros Hk. destruct (IH Hk) as (before & after & -> & Hall).
    exists (c :: before), after. split; [done | by constructor].
Qed.

(** No CSRF candidate is a credential candidate. *)
Lemma csrf_candidate_not_credential (k c : string) :
  k ∈ csrf_name_candidates →
  c ∈ (common_user_fields ++ common_pass_fields)%list →
  Some k ≠ Some c.
Proof.
  unfold csrf_name_candidates, common_user_fields, common_pass_fields.
  intros Hk Hc [= ->]. simpl in Hc.
  repeat (apply elem_of_cons in Hk as [->|Hk]);
    try (by apply elem_of_nil in Hk);
    repeat (apply elem_of_cons in Hc as [Hc|Hc]; [discriminate Hc|]);
    by apply elem_of_nil in Hc.
Qed.

(** The scan leaves the mapping alone and only binds [csrf_name]. *)
Lemma scan_csrf_inputs (v : Vars) : inputs (scan_csrf v) = inputs v.
Proof. reflexivity. Qed.

Lemma field_heuristic_csrf_name (args : Args) (form : Form) :
  csrf_name (field_heuristic args form) =
    Some (first_key csrf_name_candidates (build_inputs form)).
Proof. reflexivity. Qed.

Lemma field_heuristic_without_csrf_scan_inputs (args : Args) (form : Form) :
  inputs (field_heuristic_without_csrf_scan args form) =
  inputs (field_heuristic args form).
Proof. reflexivity. Qed.

(** The two stages do differ, in the variable nothing reads. *)
Lemma field_heuristic_without_csrf_scan_unbound (args : Args) (form : Form) :
  csrf_name (field_heuristic_without_csrf_scan args form) = None ∧
  csrf_name (field_heuristic args form) ≠ None.
Proof. split; [reflexivity | discriminate]. Qed.

Lemma login_with_ext (h h' : Args → Form → Vars) (w : World) (args : Args)
    (form : Form) (p : Proc) :
  inputs (h args form) = inputs (h' args form) →
  login_with h w args form p = login_with h' w args form p.
Proof. intros Heq. rewrite !login_with_run. cbv zeta. by rewrite Heq. Qed.

(** C10.  The CSRF candidate scan cannot be observed: for every server,
    page and command line, the script and the script with lines 55-62
    removed issue the same requests with the same payload, print the same
    text on both channels and exit with the same status. *)
Theorem csrf_scan_unobservable (w : World) (args : Args) :
  observable (main w args) = observable (main_without_csrf_scan w args).
Proof.
  unfold main, main_without_csrf_scan. apply (f_equal observable).
  destruct (send w (Get (login_page args) None) []) as [e|[r jar]] eqn:Hsend.
  - by rewrite !(script_fetch_error _ _ _ e).
  - destruct (forms w (text r)) as [|form rest] eqn:Hforms.
    + by rewrite !(script_no_form _ _ _ r jar).
    + rewrite !(script_form _ _ _ r jar form rest) by done.
      apply login_with_ext. symmetry.
      apply field_heuristic_without_csrf_scan_inputs.
Qed.

(** ** The fallback and the keys it can reach (lines 80-91) *)

(** The fallback writes under the name of an input of the form, or under
    [None] or the empty name: the truth of [k in inputs] for a non-empty
    [k] does not change once all named inputs are keys. *)
Lemma has_key_fallback (cands : list string) (ty v : string) (form : Form)
    (m : Inputs) (k : string) :
  k ≠ "" →
  (∀ inp n, inp ∈ form_inputs form → get inp "name" = Some n → n ≠ "" →
            is_Some (m !! Some n)) →
  has_key (fallback cands ty v form m) k = has_key m k.
Proof.
  intros Hk Hcov. unfold fallback.
  destruct (any_key cands m); simpl; [done|].
  destruct (find_all_type ty form) as [|inp l] eqn:Hf; [done|].
  apply find_all_type_member in Hf as [Hin _].
  destruct (get inp "name") as [n|] eqn:Hn.
  - destruct (decide (n = "")) as [->|Hne].
    + apply has_key_insert_unnameable; auto.
    + apply has_key_insert_present. by apply (Hcov inp).
  - apply has_key_insert_unnameable; auto.
Qed.

Lemma named_inputs_are_keys (args : Args) (form : Form) (inp : Tag) (n : string) :
  inp ∈ form_inputs form → get inp "name" = Some n → n ≠ "" →
  is_Some (inject common_pass_fields (password args)
             (inject common_user_fields (username args) (build_inputs form))
           !! Some n).
Proof.
  intros Hin Hn Hne. rewrite !inject_keys. by apply (build_inputs_named form inp).
Qed.

Lemma common_pass_fields_nonempty (k : string) :
  k ∈ common_pass_fields → k ≠ "".
Proof.
  unfold common_pass_fields. intros Hk ->.
  repeat (apply elem_of_cons in Hk as [Hk|Hk]; [discriminate Hk|]).
  by apply elem_of_nil in Hk.
Qed.

(** Whether a candidate loop found a key is decided by the mapping built
    from the form: nothing in between adds or removes a candidate name. *)
Lemma any_key_user_stable (args : Args) (form : Form) :
  any_key common_user_fields
    (inject common_pass_fields (password args)
       (inject common_user_fields (username args) (build_inputs form)))
  = any_key common_user_fields (build_inputs form).
Proof. by rewrite !any_key_inject. Qed.

Lemma any_key_pass_stable (args : Args) (form : Form) :
  any_key common_pass_fields
    (fallback common_user_fields "text" (username args) form
       (inject common_pass_fields (password args)
          (inject common_user_fields (username args) (build_inputs form))))
  = any_key common_pass_fields (build_inputs form).
Proof.
  etrans.
  - apply any_key_ext. intros k Hk. apply has_key_fallback.
    + by apply common_pass_fields_nonempty.
    + intros inp n. apply named_inputs_are_keys.
  - by rewrite !any_key_inject.
Qed.

Lemma fallback_target_user_stable (args : Args) (form : Form) :
  fallback_target common_user_fields "text" form
    (inject common_pass_fields (password args)
       (inject common_user_fields (username args) (build_inputs form)))
  = fallback_target common_user_fields "text" form (build_inputs form).
Proof. unfold fallback_target. by rewrite any_key_user_stable. Qed.

Lemma fallback_target_pass_stable (args : Args) (form : Form) :
  fallback_target common_pass_fields "password" form
    (fallback common_user_fields "text" (username args) form
       (inject common_pass_fields (password args)
          (inject common_user_fields (username args) (build_inputs form))))
  = fallback_target common_pass_fields "password" form (build_inputs form).
Proof. unfold fallback_target. by rewrite any_key_pass_stable. Qed.

(** The candidate loops never write under a CSRF candidate name. *)
Lemma inject_keeps_csrf (args : Args) (m : Inputs) (k : string) :
  k ∈ csrf_name_candidates →
  inject common_pass_fields (password args)
    (inject common_user_fields (username args) m) !! Some k = m !! Some k.
Proof.
  intros Hk. rewrite !inject_other; [done|..];
    intros c Hc; apply csrf_candidate_not_credential; try done;
    apply elem_of_app; auto.
Qed.

(** C2, as stated, fails.  In a form whose first text input is named
    [token] and which has no username candidate, the scan finds [token]
    and the fallback then writes the username under that very key. *)
Lemma csrf_key_overwritten_by_fallback :
  csrf_name (field_heuristic Sample.args Sample.token_form) = Some (Some "token") ∧
  build_inputs Sample.token_form !! Some "token" = Some "tok123" ∧
  inputs (field_heuristic Sample.args Sample.token_form) !! Some "token"
    = Some "alice" ∧
  ¬ ∀ args form k,
      csrf_name (field_heuristic args form) = Some (Some k) →
      inputs (field_heuristic args form) !! Some k = build_inputs form !! Some k.
Proof.
  split_and!; try reflexivity.
  intros H. specialize (H Sample.args Sample.token_form "token" eq_refl).
  vm_compute in H. discriminate H.
Qed.

(** C2, amended.  Let [k] be the first CSRF candidate that is a key of
    the field mapping.  The two candidate loops leave its value as the
    form declared it.  The submitted value is still that default unless a
    fallback selects an input named [k]: when no password candidate is a
    key and the first [password] input is named [k], the password is
    submitted under [k]; when that is not so but no username candidate is
    a key and the first [text] input is named [k], the username is. *)
Theorem csrf_key_kept_unless_fallback_target (args : Args) (form : Form) (k : string) :
  csrf_name (field_heuristic args form) = Some (Some k) →
  let m0 := build_inputs form in
  let user_target := fallback_target common_user_fields "text" form m0 in
  let pass_target := fallback_target common_pass_fields "password" form m0 in
  inject common_pass_fields (password args)
    (inject common_user_fields (username args) m0) !! Some k = m0 !! Some k ∧
  (user_target ≠ Some (Some k) → pass_target ≠ Some (Some k) →
     inputs (field_heuristic args form) !! Some k = m0 !! Some k) ∧
  (pass_target = Some (Some k) →
     inputs (field_heuristic args form) !! Some k = Some (password args)) ∧
  (user_target = Some (Some k) → pass_target ≠ Some (Some k) →
     inputs (field_heuristic args form) !! Some k = Some (username args)).
Proof.
  rewrite field_heuristic_csrf_name. intros Hk. apply (inj Some) in Hk.
  apply first_key_member in Hk as [Hk _].
  intros m0 user_target pass_target. rewrite field_heuristic_inputs.
  split_and!.
  - by apply inject_keeps_csrf.
  - intros Hu Hp.
    rewrite fallback_other by by rewrite fallback_target_pass_stable.
    rewrite fallback_other by by rewrite fallback_target_user_stable.
    by apply inject_keeps_csrf.
  - intros Hp.
    rewrite (fallback_hit _ _ _ _ _ (Some k))
      by by rewrite fallback_target_pass_stable.
    by rewrite lookup_insert_eq.
  - intros Hu Hp.
    rewrite fallback_other by by rewrite fallback_target_pass_stable.
    rewrite (fallback_hit _ _ _ _ _ (Some k))
      by by rewrite fallback_target_user_stable.
    by rewrite lookup_insert_eq.
Qed.

Lemma csrf_key_kept_unless_fallback_target_witness :
  inputs (field_heuristic Sample.args Sample.login_form) !! Some "_csrf"
    = Some "tok123" ∧
  inputs (field_heuristic Sample.args Sample.token_form) !! Some "token"
    = Some "alice".
Proof.
  split.
  - destruct (csrf_key_kept_unless_fallback_target
                Sample.args Sample.login_form "_csrf" eq_refl) as (_ & H & _).
    apply H; discriminate.
  - destruct (csrf_key_kept_unless_fallback_target
                Sample.args Sample.token_form "token" eq_refl) as (_ & _ & _ & H).
    apply H; [reflexivity | discriminate].
Defined.

(** C3.  What the code does where the claim promises a no-op: when no
    username candidate is a key and the first [text] input has no [name]
    attribute, the fallback stores the username under the key [None],
    which the mapping did not have, and the mapping handed to the
    submitter has that key. *)
Theorem fallback_unnamed_text_input_adds_key (args : Args) (form : Form)
    (inp : Tag) (rest : list Tag) :
  any_key common_user_fields (build_inputs form) = false →
  find_all_type "text" form = inp :: rest →
  get inp "name" = None →
  let before :=
    inject common_pass_fields (password args)
      (inject common_user_fields (username args) (build_inputs form)) in
  let after := fallback common_user_fields "text" (username args) form before in
  before !! None = None ∧
  after = <[None := username args]> before ∧
  after ≠ before ∧
  is_Some (inputs (field_heuristic args form) !! None).
Proof.
  intros Hany Hfind Hname before after.
  assert (before !! None = None) as Hbefore.
  { subst before. rewrite !inject_other by done.
    apply build_inputs_unnameable. auto. }
  assert (after = <[None := username args]> before) as Hafter.
  { subst after. unfold fallback. subst before.
    by rewrite any_key_user_stable, Hany, Hfind, Hname. }
  split_and!; try done.
  - rewrite Hafter. intros Heq.
    assert (<[None := username args]> before !! None = before !! None) as Hl
      by by rewrite Heq.
    rewrite lookup_insert_eq, Hbefore in Hl. discriminate Hl.
  - rewrite field_heuristic_inputs. fold before. fold after.
    unfold fallback. destruct (negb _); [|by rewrite Hafter, lookup_insert_eq].
    destruct (find_all_type "password" form) as [|pinp l].
    + by rewrite Hafter, lookup_insert_eq.
    + apply lookup_insert_is_Some'. right. by rewrite Hafter, lookup_insert_eq.
Qed.

Lemma fallback_unnamed_text_input_adds_key_witness :
  inputs (field_heuristic Sample.args Sample.unnamed_form) !! None = Some "alice" ∧
  build_inputs Sample.unnamed_form !! None = None ∧
  is_Some (inputs (field_heuristic Sample.args Sample.unnamed_form) !! None).
Proof.
  split_and!; try reflexivity.
  apply (fallback_unnamed_text_input_adds_key Sample.args Sample.unnamed_form
           (Sample.tag [("type", "text")]) []); reflexivity.
Defined.

(** The password half of the same defect. *)
Lemma fallback_unnamed_password_input_adds_key (args : Args) (form : Form)
    (inp : Tag) (rest : list Tag) :
  any_key common_pass_fields (build_inputs form) = false →
  find_all_type "password" form = inp :: rest →
  get inp "name" = None →
  inputs (field_heuristic args form) !! None = Some (password args).
Proof.
  intros Hany Hfind Hname. rewrite field_heuristic_inputs.
  unfold fallback at 1.
  rewrite any_key_pass_stable, Hany, Hfind, Hname. simpl.
  by rewrite lookup_insert_eq.
Qed.

(** The unnamed key reaches the wire: the submission of the run carries
    the mapping with its [None] key. *)
Lemma unnamed_text_input_run :
  sent (main (Sample.server [Sample.unnamed_form] (inl "reset")) Sample.args).1 =
    [Get "http://example.test/login" None;
     Post "http://example.test/login"
       (<[None := "alice"]> (<[Some "password" := "s3cret"]> ∅))].
Proof. reflexivity. Qed.

(** * Further properties of the script *)

(** ** Submission failure (lines 94-101) *)

(** When the submission raises, the run exits with status 4 after one
    error line on standard error; standard output stays empty and the
    two requests issued are the fetch and the failed submission. *)
Theorem submit_error_exits_4 (w : World) (args : Args) (r : Response)
    (jar : list (string * string)) (form : Form) (rest : list Form) (e : string) :
  send w (Get (login_page args) None) [] = inr (r, jar) →
  forms w (text r) = form :: rest →
  send w (submission args form (inputs (field_heuristic args form))) jar = inl e →
  (main w args).2 = SysExit 4 ∧
  stderr (main w args).1 = ["ERROR: Login submission failed: " +:+ e] ∧
  stdout (main w args).1 = [] ∧
  sent (main w args).1 =
    [Get (login_page args) None;
     submission args form (inputs (field_heuristic args form))].
Proof.
  intros Hfetch Hforms Hsubmit. unfold main.
  rewrite (script_form _ _ _ r jar form rest) by done.
  rewrite login_with_run. cbv zeta.
  change (cookies (fetched args jar)) with jar. by rewrite Hsubmit.
Qed.

Lemma submit_error_exits_4_witness :
  (main (Sample.server [Sample.login_form] (inl "reset")) Sample.args).2
    = SysExit 4 ∧
  stderr (main (Sample.server [Sample.login_form] (inl "reset")) Sample.args).1
    = ["ERROR: Login submission failed: reset"].
Proof.
  pose proof (submit_error_exits_4
                (Sample.server [Sample.login_form] (inl "reset")) Sample.args
                {| text := "<html>" |} [] Sample.login_form [] "reset"
                eq_refl eq_refl eq_refl) as H.
  split; apply H.
Defined.

(** ** Candidate priority (lines 64-78) *)

Lemma inject_first_key (cands : list string) (v : string) (m : Inputs) (k : string) :
  first_key cands m = Some k → inject cands v m = <[Some k := v]> m.
Proof.
  induction cands as [|c cands IH]; simpl; [done|].
  destruct (has_key m c); [by intros [= ->] | done].
Qed.

Lemma first_key_none (cands : list string) (m : Inputs) :
  first_key cands m = None ↔ any_key cands m = false.
Proof.
  unfold any_key. induction cands as [|c cands IH]; simpl; [done|].
  destruct (has_key m c); simpl; [|done]. split; discriminate.
Qed.

Lemma inject_absent (cands : list string) (v : string) (m : Inputs) :
  any_key cands m = false → inject cands v m = m.
Proof.
  unfold any_key. induction cands as [|c cands IH]; simpl; [done|].
  destruct (has_key m c); simpl; [discriminate | done].
Qed.

Lemma first_key_ext (cands : list string) (m m' : Inputs) :
  (∀ k, has_key m k = has_key m' k) → first_key cands m = first_key cands m'.
Proof.
  intros H. induction cands as [|c cands IH]; simpl; [done|].
  by rewrite H, IH.
Qed.

Lemma first_key_any (cands : list string) (m : Inputs) (k : string) :
  first_key cands m = Some k → any_key cands m = true.
Proof.
  intros Hk. apply first_key_member in Hk as [Hin Hhas].
  by apply (any_key_member _ _ k).
Qed.

(** Each credential goes to one key, chosen by the order of the
    candidate list and not by the order of the page: when [ku] is the
    first username candidate that is a key and [kp] the first password
    candidate that is a key, the payload is the mapping built from the
    form with [ku] set to the username and [kp] to the password; no other
    candidate, and no fallback input, is written. *)
Theorem credentials_go_to_first_candidates (args : Args) (form : Form)
    (ku kp : string) :
  first_key common_user_fields (build_inputs form) = Some ku →
  first_key common_pass_fields (build_inputs form) = Some kp →
  inputs (field_heuristic args form) =
    <[Some kp := password args]>
      (<[Some ku := username args]> (build_inputs form)).
Proof.
  intros Hu Hp. rewrite field_heuristic_inputs.
  rewrite (fallback_skipped common_pass_fields)
    by (rewrite any_key_pass_stable; by apply (first_key_any _ _ kp)).
  rewrite fallback_skipped
    by (rewrite any_key_user_stable; by apply (first_key_any _ _ ku)).
  rewrite (inject_first_key common_user_fields _ _ ku) by done.
  apply inject_first_key. rewrite <- Hp. apply first_key_ext.
  intros k. apply has_key_insert_present.
  apply first_key_member in Hu as [_ Hu]. by apply has_key_true.
Qed.

Lemma credentials_go_to_first_candidates_witness :
  inputs (field_heuristic Sample.args Pages.email_form) =
    <[Some "pass" := "s3cret"]>
      (<[Some "email" := "alice"]> (build_inputs Pages.email_form)) ∧
  inputs (field_heuristic Sample.args Pages.email_form) !! Some "login" = Some "x" ∧
  inputs (field_heuristic Sample.args Pages.email_form) !! Some "pwd" = Some "".
Proof.
  pose proof (credentials_go_to_first_candidates
                Sample.args Pages.email_form "email" "pass" eq_refl eq_refl) as H.
  split_and!; [exact H | by rewrite H | by rewrite H].
Defined.

(** ** The fallback on named inputs (lines 80-91) *)

(** When no username candidate is a key but a password candidate is, the
    username is stored under whatever [Tag.get("name")] returns for the
    first [text] input, after the password loop has run: the payload is
    the mapping with the password injected and then that key set to the
    username. *)
Theorem username_falls_back_to_first_text_input (args : Args) (form : Form)
    (inp : Tag) (rest : list Tag) :
  any_key common_user_fields (build_inputs form) = false →
  any_key common_pass_fields (build_inputs form) = true →
  find_all_type "text" form = inp :: rest →
  inputs (field_heuristic args form) =
    <[get inp "name" := username args]>
      (inject common_pass_fields (password args) (build_inputs form)).
Proof.
  intros Hu Hp Hfind. rewrite field_heuristic_inputs.
  rewrite (fallback_skipped common_pass_fields)
    by by rewrite any_key_pass_stable.
  unfold fallback. rewrite any_key_user_stable, Hu, Hfind. cbn [negb].
  by rewrite (inject_absent common_user_fields).
Qed.

Lemma username_falls_back_to_first_text_input_witness :
  inputs (field_heuristic Sample.args Pages.uid_form) =
    <[Some "uid" := "alice"]>
      (inject common_pass_fields "s3cret" (build_inputs Pages.uid_form)).
Proof.
  apply (username_falls_back_to_first_text_input Sample.args Pages.uid_form
           (Sample.tag [("type", "text"); ("name", "uid")]) []);
    reflexivity.
Defined.

(** When no password candidate is a key and the form has a [password]
    input, the last write of the stage stores the password under whatever
    [Tag.get("name")] returns for the first such input; the submitted
    payload has the password there. *)
Theorem password_falls_back_to_first_password_input (args : Args) (form : Form)
    (inp : Tag) (rest : list Tag) :
  any_key common_pass_fields (build_inputs form) = false →
  find_all_type "password" form = inp :: rest →
  inputs (field_heuristic args form) =
    <[get inp "name" := password args]>
      (fallback common_user_fields "text" (username args) form
         (inject common_user_fields (username args) (build_inputs form))) ∧
  inputs (field_heuristic args form) !! get inp "name" = Some (password args).
Proof.
  intros Hp Hfind.
  assert (inputs (field_heuristic args form) =
          <[get inp "name" := password args]>
            (fallback common_user_fields "text" (username args) form
               (inject common_user_fields (username args) (build_inputs form))))
    as Heq.
  { rewrite field_heuristic_inputs. unfold fallback at 1.
    rewrite any_key_pass_stable, Hp, Hfind. cbn [negb].
    rewrite (inject_absent common_pass_fields); [done|].
    by rewrite any_key_inject. }
  split; [done|]. by rewrite Heq, lookup_insert_eq.
Qed.

Lemma password_falls_back_to_first_password_input_witness :
  inputs (field_heuristic Sample.args Pages.pin_form) !! Some "pin" = Some "s3cret".
Proof.
  apply (password_falls_back_to_first_password_input Sample.args Pages.pin_form
           (Sample.tag [("type", "password"); ("name", "pin")]) []);
    reflexivity.
Defined.

(** ** What the stage leaves alone (lines 64-91) *)

Lemma fallback_other_name (cands : list string) (ty v : string) (form : Form)
    (m : Inputs) (key : option string) :
  (∀ inp, head (find_all_type ty form) = Some inp → get inp "name" ≠ key) →
  fallback cands ty v form m !! key = m !! key.
Proof.
  intros Hname. apply fallback_other. unfold fallback_target.
  destruct (any_key cands m); [done|].
  destruct (find_all_type ty form) as [|inp l]; simpl in *; [done|].
  intros [= Heq]. by apply (Hname inp).
Qed.

(** For every form, a key that is no credential candidate and is not what
    [Tag.get("name")] returns for the first [text] input or for the first
    [password] input is submitted with the value the form declared:
    hidden fields and button values pass through. *)
Theorem other_fields_pass_through (args : Args) (form : Form) (key : option string) :
  (∀ c, c ∈ (common_user_fields ++ common_pass_fields)%list → key ≠ Some c) →
  (∀ inp, head (find_all_type "text" form) = Some inp → get inp "name" ≠ key) →
  (∀ inp, head (find_all_type "password" form) = Some inp → get inp "name" ≠ key) →
  inputs (field_heuristic args form) !! key = build_inputs form !! key.
Proof.
  intros Hcand Htext Hpass. rewrite field_heuristic_inputs.
  rewrite !fallback_other_name by done.
  rewrite !inject_other; [done|..];
    intros c Hc; apply Hcand, elem_of_app; auto.
Qed.

Lemma other_fields_pass_through_witness :
  inputs (field_heuristic Sample.args Pages.uid_form) !! Some "sid" = Some "7".
Proof.
  apply (other_fields_pass_through Sample.args Pages.uid_form (Some "sid")).
  - intros c Hc [= <-]. simpl in Hc.
    repeat (apply elem_of_cons in Hc as [Hc|Hc]; [discriminate Hc|]).
    by apply elem_of_nil in Hc.
  - intros inp [= <-]. discriminate.
  - intros inp [= <-]. discriminate.
Defined.

Lemma fallback_keeps_keys (cands : list string) (ty v : string) (form : Form)
    (m : Inputs) (key : option string) :
  is_Some (m !! key) → is_Some (fallback cands ty v form m !! key).
Proof.
  intros Hk. unfold fallback. destruct (negb _); [|done].
  destruct (find_all_type ty form); [done|].
  apply lookup_insert_is_Some'. by right.
Qed.

Lemma fallback_new_key (cands : list string) (ty v : string) (form : Form)
    (m : Inputs) (key : option string) :
  (∀ inp n, inp ∈ form_inputs form → get inp "name" = Some n → n ≠ "" →
            is_Some (m !! Some n)) →
  is_Some (fallback cands ty v form m !! key) →
  is_Some (m !! key) ∨ key = None ∨ key = Some "".
Proof.
  intros Hcov. unfold fallback. destruct (negb _); [|auto].
  destruct (find_all_type ty form) as [|inp l] eqn:Hf; [auto|].
  apply find_all_type_member in Hf as [Hin _].
  intros Hk. apply lookup_insert_is_Some' in Hk as [<-|Hk]; [|auto].
  destruct (get inp "name") as [n|] eqn:Hn; [|auto].
  destruct (decide (n = "")) as [->|Hne]; [auto|].
  left. by apply (Hcov inp).
Qed.

(** No field of the form is dropped and no field name is invented: every
    key of the mapping built from the form is a key of the payload, and a
    key of the payload that the form did not give is [None] or the empty
    string, the two keys a fallback can add for an input without a usable
    name. *)
Theorem payload_keys (args : Args) (form : Form) (key : option string) :
  (is_Some (build_inputs form !! key) →
   is_Some (inputs (field_heuristic args form) !! key)) ∧
  (is_Some (inputs (field_heuristic args form) !! key) →
   is_Some (build_inputs form !! key) ∨ key = None ∨ key = Some "").
Proof.
  rewrite field_heuristic_inputs. split.
  - intros Hk. do 2 apply fallback_keeps_keys. by rewrite !inject_keys.
  - intros Hk. apply fallback_new_key in Hk as [Hk|Hk]; [|auto|].
    + apply fallback_new_key in Hk as [Hk|Hk]; [|auto|].
      * left. by rewrite !inject_keys in Hk.
      * intros inp n. apply named_inputs_are_keys.
    + intros inp n Hin Hn Hne. apply fallback_keeps_keys.
      by apply (named_inputs_are_keys args form inp).
Qed.

Lemma payload_keys_witness :
  is_Some (inputs (field_heuristic Sample.args Sample.login_form) !! Some "go").
Proof.
  apply (payload_keys Sample.args Sample.login_form (Some "go")).
  by exists "Login".
Defined.

(** When no credential candidate is a key and the form has neither a
    [text] nor a [password] input, nothing is injected: the run still
    sends the submission, and its payload is the mapping built from the
    form, without the username and the password. *)
Theorem no_target_submits_defaults (w : World) (args : Args) (r : Response)
    (jar : list (string * string)) (form : Form) (rest : list Form) :
  send w (Get (login_page args) None) [] = inr (r, jar) →
  forms w (text r) = form :: rest →
  any_key common_user_fields (build_inputs form) = false →
  any_key common_pass_fields (build_inputs form) = false →
  find_all_type "text" form = [] →
  find_all_type "password" form = [] →
  inputs (field_heuristic args form) = build_inputs form ∧
  sent (main w args).1 =
    [Get (login_page args) None; submission args form (build_inputs form)].
Proof.
  intros Hfetch Hforms Hu Hp Htext Hpass.
  assert (inputs (field_heuristic args form) = build_inputs form) as Heq.
  { rewrite field_heuristic_inputs.
    rewrite (inject_absent common_user_fields) by done.
    rewrite (inject_absent common_pass_fields) by done.
    unfold fallback. rewrite Hu, Htext. cbn [negb].
    by rewrite Hp, Hpass. }
  split; [done|]. unfold main.
  rewrite (script_form _ _ _ r jar form rest) by done.
  by rewrite login_with_sent, Heq.
Qed.

Lemma no_target_submits_defaults_witness :
  sent (main (Sample.server [Pages.bare_form] (inl "reset")) Sample.args).1 =
    [Get "http://example.test/login" None;
     submission Sample.args Pages.bare_form (build_inputs Pages.bare_form)].
Proof.
  apply (no_target_submits_defaults
           (Sample.server [Pages.bare_form] (inl "reset")) Sample.args
           {| text := "<html>" |} [] Pages.bare_form []);
    reflexivity.
Defined.

(** ** The body markers (line 111) *)

Lemma lower_app (a b : string) :
  Py.lower (a +:+ b) = Py.lower a +:+ Py.lower b.
Proof.
  induction a as [|c a IH]; [done|].
  change (String c a +:+ b) with (String c (a +:+ b)).
  cbn [Py.lower]. by rewrite IH.
Qed.

(** The marker test ignores letter case: after an answered submission
    that leaves the session without cookies, a body that contains, in any
    mix of upper and lower case, the word [logout] or the word
    [dashboard] makes the run print [OK cookie=] and exit with status
    0. *)
Theorem marker_in_any_case_is_success (w : World) (args : Args) (r : Response)
    (jar : list (string * string)) (form : Form) (rest : list Form)
    (resp : Response) (before marker after : string) :
  send w (Get (login_page args) None) [] = inr (r, jar) →
  forms w (text r) = form :: rest →
  send w (submission args form (inputs (field_heuristic args form))) jar
    = inr (resp, []) →
  text resp = before +:+ marker +:+ after →
  Py.lower marker = "logout" ∨ Py.lower marker = "dashboard" →
  stdout (main w args).1 = ["OK cookie="] ∧ (main w args).2 = SysExit 0.
Proof.
  intros Hfetch Hforms Hsubmit Hbody Hmarker.
  assert (logged_in_marker resp = true) as Hfound.
  { unfold logged_in_marker. rewrite Hbody, !lower_app. apply orb_true_iff.
    destruct Hmarker as [-> | ->]; [left | right];
      apply contains_substring; eauto. }
  unfold main. rewrite (script_form _ _ _ r jar form rest) by done.
  rewrite login_with_run. cbv zeta.
  change (cookies (fetched args jar)) with jar. rewrite Hsubmit.
  rewrite result_classifier_run. simpl. by rewrite Hfound.
Qed.

Lemma marker_in_any_case_is_success_witness :
  stdout (main (Sample.server [Sample.login_form]
                  (inr ({| text := "<a href=/out>LogOut</a>" |}, [])))
               Sample.args).1 = ["OK cookie="].
Proof.
  apply (marker_in_any_case_is_success
           (Sample.server [Sample.login_form]
              (inr ({| text := "<a href=/out>LogOut</a>" |}, [])))
           Sample.args {| text := "<html>" |} [] Sample.login_form []
           {| text := "<a href=/out>LogOut</a>" |}
           "<a href=/out>" "LogOut" "</a>"
           eq_refl eq_refl eq_refl eq_refl).
  left. reflexivity.
Defined.
